(** * safe_base.hpp: the base class of the safe numeric wrappers

    A shallow embedding of [boost::numeric::safe_base<Stored, Derived, P, E>]
    (include/safe_base.hpp) and of the collaborators it calls.

    - An integer value of any C++ integer type is a [Z]; storing it into the
      [Stored] member converts it, with the wrap-around written out
      ([convert]).
    - The exception policy [E] is called for its effect only.  A call is
      recorded in a trace, and the policy says whether the handler returns
      to its caller or leaves by an exception.
    - Member functions run in a small monad threading the trace and the
      object they are called on; the object is kept when an exception
      leaves, so that what a handler's caller sees afterwards can be stated.
    - [Derived &] results are references to the object itself.  A store of
      objects indexed by address models what a caller holding such a result
      reads later.
    - A member function that cannot be compiled has no run.  This is
      modelled where the header decides it: the [static_assert]s, and the
      assignment to [*this] in the [const] member [operator-()].  The
      reference that [derived()] yields is taken to convert to the declared
      result type. *)

From Stdlib Require Import ZArith String List Bool Lia.
From stdpp Require Import base option gmap.

Local Open Scope Z_scope.

(** ** Integer representations *)

(** What [std::numeric_limits<T>] tells about an integer type. *)
Record int_type : Type := IntType {
  is_signed : bool;
  bits : Z
}.

Definition int8_t : int_type := IntType true 8.
Definition uint8_t : int_type := IntType false 8.
Definition int32_t : int_type := IntType true 32.
Definition uint32_t : int_type := IntType false 32.
Definition int64_t : int_type := IntType true 64.
Definition uint64_t : int_type := IntType false 64.

Definition type_min (R : int_type) : Z :=
  if is_signed R then - 2 ^ (bits R - 1) else 0.

Definition type_max (R : int_type) : Z :=
  if is_signed R then 2 ^ (bits R - 1) - 1 else 2 ^ bits R - 1.

Definition in_range (R : int_type) (v : Z) : bool :=
  (type_min R <=? v) && (v <=? type_max R).

(** Conversion of an integer value to the type [R], as in [m_t(t)] and
    [m_t = rhs]: the value modulo [2 ^ bits], read back as signed when [R]
    is signed. *)
Definition convert (R : int_type) (v : Z) : Z :=
  let m := v mod 2 ^ bits R in
  if is_signed R && (2 ^ (bits R - 1) <=? m) then m - 2 ^ bits R else m.

(** A closed interval [lo, hi] as a validation predicate. *)
Definition interval (lo hi : Z) (v : Z) : bool := (lo <=? v) && (v <=? hi).

(** ** The exception policy and the trace of its calls *)

Inductive event : Type :=
  | range_error (msg : string)
  | overflow_error (msg : string).

(** Template parameter [E].  safe_base only calls [E::range_error] and
    [E::overflow_error]; whether such a call comes back is the policy's
    business. *)
Record exception_policy : Type := ExceptionPolicy {
  range_error_returns : bool;
  overflow_error_returns : bool
}.

(** A handler that throws, and one that logs and returns. *)
Definition throwing : exception_policy := ExceptionPolicy false false.
Definition returning : exception_policy := ExceptionPolicy true true.

(** ** Computations *)

(** A free function: its trace, and its result unless an exception left. *)
Definition Eff (A : Type) : Type := list event * option A.

(** A computation over a state [St]: trace, final state, and the result
    unless an exception left. *)
Definition M (St A : Type) : Type := St -> list event * St * option A.

Definition ret {St A} (a : A) : M St A := fun s => ([], s, Some a).

Definition bind {St A B} (m : M St A) (f : A -> M St B) : M St B :=
  fun s =>
    match m s with
    | (l, s', Some a) =>
        match f a s' with
        | (l', s'', r) => (l ++ l', s'', r)
        end
    | (l, s', None) => (l, s', None)
    end.

Notation "x <- m ;; k" := (bind m (fun x => k))
  (at level 100, m at next level, right associativity).
Notation "m ;; k" := (bind m (fun _ => k))
  (at level 100, right associativity).

Definition get {St} : M St St := fun s => ([], s, Some s).
Definition put {St} (s : St) : M St unit := fun _ => ([], s, Some tt).
Definition lift {St A} (e : Eff A) : M St A := fun s => (fst e, s, snd e).

(** A call of a policy handler. *)
Definition signal {St} (returns : bool) (e : event) : M St unit :=
  fun s => ([e], s, if returns then Some tt else None).

(** [if (c) stmt;] *)
Definition when {St} (c : bool) (m : M St unit) : M St unit :=
  if c then m else ret tt.

Definition trace {St A} (r : list event * St * option A) : list event := fst (fst r).
Definition state {St A} (r : list event * St * option A) : St := snd (fst r).
Definition result {St A} (r : list event * St * option A) : option A := snd r.

(** ** Build-time checks *)

(** [static_assert]: a member function whose assertion fails is no
    function at all; the program using it has no run. *)
Inductive build (A : Type) : Type :=
  | well_formed (a : A)
  | ill_formed (diagnostic : string).
Arguments well_formed {A} a.
Arguments ill_formed {A} diagnostic.

Definition static_assert {A} (c : bool) (diagnostic : string) (body : A) : build A :=
  if c then well_formed body else ill_formed diagnostic.

(** How a member function sees [*this]: one declared [const] sees a const
    object. *)
Inductive this_access : Type :=
  | mutable_this
  | const_this.

(** What a compiler says of [*this = ...] on a const object; the wording
    is the compiler's own and nothing depends on it. *)
Definition const_violation : string :=
  "no operator= can be called on a const object".

(** A statement [*this = ...] in a member function.  Every [operator=]
    of the class is a non-const member, so where [*this] is const there is
    nothing to call and the member function is ill-formed. *)
Definition assigns_to_this {A} (access : this_access) (body : A) : build A :=
  match access with
  | mutable_this => well_formed body
  | const_this => ill_formed const_violation
  end.

(** ** The binary operators *)

(** The operators [safe_base] uses on [*this]: [+ - * / % | & ^ >> <<]. *)
Inductive binop : Type :=
  | plus | minus | times | divide | modulus
  | bit_or | bit_and | bit_xor | shift_right | shift_left.

(** ** safe_base *)

Record safe_base : Type := SafeBase { m_t : Z }.

(** What a member function hands back: [Derived] is a copy of the object,
    [Derived &] the object itself. *)
Inductive returned : Type :=
  | by_value (copy : safe_base)
  | by_reference.

Section safe_base.
(** Template parameter [Stored]. *)
Variable Stored : int_type.
(** [derived().validate]: the check of the concrete class. *)
Variable validate : Z -> bool.
(** Template parameter [E]. *)
Variable E : exception_policy.
(** The binary operators on a safe value and another operand.  They are
    declared outside this header; they take their operands by value and
    yield a value of the promoted type. *)
Variable binary : binop -> Z -> Z -> Eff Z.

Definition E_range_error (msg : string) : M safe_base unit :=
  signal (range_error_returns E) (range_error msg).
Definition E_overflow_error (msg : string) : M safe_base unit :=
  signal (overflow_error_returns E) (overflow_error msg).

(** [*this OP rhs] *)
Definition this_op (op : binop) (rhs : Z) : M safe_base Z :=
  this <- get ;; lift (binary op (m_t this) rhs).
(** [lhs OP *this] *)
Definition op_this (op : binop) (lhs : Z) : M safe_base Z :=
  this <- get ;; lift (binary op lhs (m_t this)).

(** [return derived();] from a function returning [Derived]. *)
Definition return_copy : M safe_base returned :=
  this <- get ;; ret (by_value this).
(** [return derived();] from a function returning [Derived &]. *)
Definition return_self : M safe_base returned := ret by_reference.

(** [safe_base()]: the member is left uninitialised; [indeterminate] is
    whatever it holds. *)
Definition default_constructor (indeterminate : Z) : Eff safe_base :=
  ([], Some (SafeBase (convert Stored indeterminate))).

(** [safe_base(const safe_base & t) : m_t(t.m_t) {}] *)
Definition copy_constructor (t : safe_base) : Eff safe_base :=
  ([], Some (SafeBase (m_t t))).

(** [template<class T> safe_base(T & t) : m_t(t) { ... }].
    The member initialiser runs first; an exception leaving the body
    means no object. *)
Definition constructor (t : Z) : Eff safe_base :=
  match when (negb (validate t)) (E_range_error "Invalid value")
             (SafeBase (convert Stored t)) with
  | (l, this, Some _) => (l, Some this)
  | (l, _, None) => (l, None)
  end.

(** [get_stored_value()] and the explicit conversion to [const Stored &]. *)
Definition get_stored_value : M safe_base Z :=
  this <- get ;; ret (m_t this).

(** [operator=(const T & rhs)] *)
Definition operator_assign (rhs : Z) : M safe_base returned :=
  when (negb (validate rhs))
       (E_range_error "Invalid value passed on assignment") ;;
  put (SafeBase (convert Stored rhs)) ;;
  return_self.

(** [operator+=]: [m_t = derived() + rhs;] *)
Definition operator_plus_assign (rhs : Z) : M safe_base returned :=
  r <- this_op plus rhs ;;
  put (SafeBase (convert Stored r)) ;;
  return_self.

(** [*this = *this OP rhs; return derived();] *)
Definition assign_this_op (op : binop) (rhs : Z) : M safe_base returned :=
  r <- this_op op rhs ;;
  operator_assign r ;;
  return_self.

Definition operator_minus_assign := assign_this_op minus.
Definition operator_times_assign := assign_this_op times.
Definition operator_divide_assign := assign_this_op divide.
Definition operator_modulus_assign := assign_this_op modulus.
Definition operator_or_assign := assign_this_op bit_or.
Definition operator_and_assign := assign_this_op bit_and.
(** [operator^=]: [*this = *this * rhs;] *)
Definition operator_xor_assign := assign_this_op times.
Definition operator_shift_right_assign := assign_this_op shift_right.
Definition operator_shift_left_assign := assign_this_op shift_left.

(** [Derived operator++()] *)
Definition operator_pre_increment : M safe_base returned :=
  r <- this_op plus 1 ;;
  operator_assign r ;;
  return_copy.

(** [Derived operator--()] *)
Definition operator_pre_decrement : M safe_base returned :=
  r <- this_op minus 1 ;;
  operator_assign r ;;
  return_copy.

(** [Derived operator++(int)].  [t] is a local of type [Stored]; [++t]
    changes the local. *)
Definition operator_post_increment : M safe_base returned :=
  this <- get ;;
  let t := m_t this in
  r <- this_op plus 1 ;;
  when (negb (validate r)) (E_overflow_error "Overflow on increment") ;;
  let t := convert Stored (t + 1) in
  return_copy.

(** [Derived & operator--(int)] *)
Definition operator_post_decrement : M safe_base returned :=
  this <- get ;;
  let t := m_t this in
  r <- this_op minus 1 ;;
  when (negb (validate r)) (E_overflow_error "Overflow on increment") ;;
  let t := convert Stored (t - 1) in
  return_self.

(** The statements of [operator-()]:
    [*this = 0 - *this; return derived();] *)
Definition operator_negate_statements : M safe_base returned :=
  r <- op_this minus 0 ;;
  operator_assign r ;;
  return_copy.

(** [Derived operator-() const]: the assertion on [Stored] first, then
    the assignment to [*this], in a member function declared [const]. *)
Definition operator_negate : build (M safe_base returned) :=
  match static_assert (is_signed Stored)
          "Application of unary minus to unsigned value is an error" tt with
  | well_formed _ => assigns_to_this const_this operator_negate_statements
  | ill_formed diagnostic => ill_formed diagnostic
  end.

(** [Derived operator~() const]; it reads [m_t] and assigns nothing. *)
Definition operator_complement : build (M safe_base returned) :=
  static_assert (is_signed Stored)
    "Bitwise inversion of unsigned value is an error"
    (this <- get ;;
     when (negb (validate (Z.lnot (m_t this))))
          (E_overflow_error "Overflow on increment") ;;
     return_copy).
End safe_base.

(** ** Comparison of integers of different types *)

(** An integer together with its C++ type. *)
Record integer : Type := Integer {
  type_of : int_type;
  value : Z
}.

(** The relational operators hand [m_t] and [rhs] to
    [boost::numeric::safe_compare]; whatever these three functions are, the
    operators are built from them as below. *)
Section relational_operators.
Variable Stored : int_type.
Variables less_than greater_than equal : integer -> integer -> bool.

Definition stored_value (this : safe_base) : integer :=
  Integer Stored (m_t this).

Definition operator_lt (this : safe_base) (rhs : integer) : bool :=
  less_than (stored_value this) rhs.
Definition operator_gt (this : safe_base) (rhs : integer) : bool :=
  greater_than (stored_value this) rhs.
Definition operator_eq (this : safe_base) (rhs : integer) : bool :=
  equal (stored_value this) rhs.
Definition operator_ne (this : safe_base) (rhs : integer) : bool :=
  negb (equal (stored_value this) rhs).
Definition operator_ge (this : safe_base) (rhs : integer) : bool :=
  negb (less_than (stored_value this) rhs).
Definition operator_le (this : safe_base) (rhs : integer) : bool :=
  negb (greater_than (stored_value this) rhs).
End relational_operators.

Module safe_compare.

(** Modelled from the spec: the widening of safe_compare.hpp, a header
    missing here: the value of a non-negative signed operand in the
    unsigned domain. *)
Definition widen (v : Z) : Z := Z.of_N (Z.to_N v).

(** Modelled from the spec: [less_than] of safe_compare.hpp, a header that
    safe_base.hpp includes and that is missing here.  Operands of the same
    signedness are compared directly; of a signed and an unsigned operand, a negative
    one is less than the other whatever the magnitudes, and otherwise the
    signed value is widened into the unsigned domain and the magnitudes
    are compared. *)
Definition less_than (a b : integer) : bool :=
  if Bool.eqb (is_signed (type_of a)) (is_signed (type_of b)) then
    value a <? value b
  else if is_signed (type_of a) then
    if value a <? 0 then true else widen (value a) <? value b
  else
    if value b <? 0 then false else value a <? widen (value b).

(** Modelled from the spec: [equal] of the same missing header, which is
    [!less_than(a,b) && !less_than(b,a)]. *)
Definition equal (a b : integer) : bool :=
  negb (less_than a b) && negb (less_than b a).

(** Modelled from the spec: [greater_than] of the same missing header.
    The spec names it without a definition of its own; it is taken as
    [less_than] with the operands exchanged. *)
Definition greater_than (a b : integer) : bool := less_than b a.

End safe_compare.

(** ** Checked binary operators *)

(** Modelled from the spec: the exact result that a checked binary
    operator, missing here, computes before its range check.  The spec
    leaves division by zero open; [Z.quot] and [Z.rem] give 0 and the
    dividend there. *)
Definition exact_result (op : binop) (a b : Z) : Z :=
  match op with
  | plus => a + b
  | minus => a - b
  | times => a * b
  | divide => Z.quot a b
  | modulus => Z.rem a b
  | bit_or => Z.lor a b
  | bit_and => Z.land a b
  | bit_xor => Z.lxor a b
  | shift_right => Z.shiftr a b
  | shift_left => Z.shiftl a b
  end.

(** The two operators with the extra conditions on their operands. *)
Definition is_shift (op : binop) : bool :=
  match op with
  | shift_right | shift_left => true
  | _ => false
  end.

(** Modelled from the spec: the message of a checked binary operator,
    missing here; the spec gives none. *)
Definition overflow_message : string := "Overflow".

(** Modelled from the spec: the checked operators that [*this + 1],
    [*this - rhs] and the like resolve to; safe_base.hpp has them only as
    commented-out fragments.  An operator computes the exact result, checks
    it against the destination's domain [dest], and calls [overflow_error]
    when the check fails; a shift is also refused for a negative left
    operand or an amount above the operand's [width].  The spec gives no
    result after a handler that returns: it is taken as the exact one. *)
Definition checked (width : Z) (dest : Z -> bool) (E : exception_policy)
    (op : binop) (a b : Z) : Eff Z :=
  let r := exact_result op a b in
  if dest r && negb (is_shift op && ((a <? 0) || (width <? b))) then
    ([], Some r)
  else
    ([overflow_error overflow_message],
     if overflow_error_returns E then Some r else None).

(** ** Objects in a store *)

(** What a caller binds the result of a member function to: a temporary
    holding the copy, or the object at an address. *)
Inductive handle : Type :=
  | temporary (copy : safe_base)
  | alias (a : positive).

(** [x.f(...)] for the object [x] at address [a].  The function runs on
    the object found there and the object is written back; a program
    naming an address that holds no object has no run, hence no result. *)
Definition call (a : positive) (f : M safe_base returned)
    : M (gmap positive safe_base) handle :=
  fun h =>
    match h !! a with
    | Some this =>
        match f this with
        | (l, this', r) =>
            (l, <[a := this']> h,
             match r with
             | Some (by_value c) => Some (temporary c)
             | Some by_reference => Some (alias a)
             | None => None
             end)
        end
    | None => ([], h, None)
    end.

(** [r.get_stored_value()] for a bound result [r]. *)
Definition read (r : handle) : M (gmap positive safe_base) Z :=
  fun h =>
    match r with
    | temporary c => ([], h, Some (m_t c))
    | alias a =>
        match h !! a with
        | Some this => ([], h, Some (m_t this))
        | None => ([], h, None)
        end
    end.

(** [auto && r = x OP; x = v; return r.get_stored_value();] for a postfix
    operator [OP] on the object [x] at address [a]. *)
Definition capture_then_assign (Stored : int_type) (validate : Z -> bool)
    (E : exception_policy) (a : positive) (postfix : M safe_base returned)
    (v : Z) : M (gmap positive safe_base) Z :=
  r <- call a postfix ;;
  call a (operator_assign Stored validate E v) ;;
  read r.

(** ** Instances used in the examples *)

(** Binary operators that hold the exact result in a 32-bit [int] and
    check it there. *)
Definition promoted_int (E : exception_policy) : binop -> Z -> Z -> Eff Z :=
  checked 32 (in_range int32_t) E.

(** Binary operators on a signed 8-bit value that check the result
    against the 8-bit domain. *)
Definition checked_int8 (E : exception_policy) : binop -> Z -> Z -> Eff Z :=
  checked 8 (interval (-128) 127) E.

(** * Properties *)

(** ** Conversion to the stored type *)

Lemma pow2_split (b : Z) : 0 < b -> 2 ^ b = 2 * 2 ^ (b - 1).
Proof.
  intros Hb. replace b with (Z.succ (b - 1)) at 1 by lia.
  apply Z.pow_succ_r. lia.
Qed.

Lemma convert_in_range (R : int_type) (v : Z) :
  0 < bits R -> in_range R v = true -> convert R v = v.
Proof.
  intros Hb. unfold in_range, convert, type_min, type_max.
  pose proof (pow2_split (bits R) Hb) as Hsplit.
  assert (0 < 2 ^ (bits R - 1)) as Hpos by (apply Z.pow_pos_nonneg; lia).
  destruct (is_signed R); simpl; rewrite andb_true_iff, !Z.leb_le; intros [Hlo Hhi].
  - destruct (Z_lt_le_dec v 0) as [Hneg | Hnn].
    + assert (v mod 2 ^ bits R = v + 2 ^ bits R) as ->.
      { symmetry. apply Z.mod_unique with (q := -1); lia. }
      destruct (Z.leb_spec (2 ^ (bits R - 1)) (v + 2 ^ bits R)); lia.
    + rewrite Z.mod_small by lia.
      destruct (Z.leb_spec (2 ^ (bits R - 1)) v); lia.
  - apply Z.mod_small. lia.
Qed.

Lemma convert_in_type (R : int_type) (v : Z) :
  0 < bits R -> in_range R (convert R v) = true.
Proof.
  intros Hb. unfold in_range, convert, type_min, type_max.
  pose proof (pow2_split (bits R) Hb) as Hsplit.
  assert (0 < 2 ^ (bits R - 1)) as Hpos by (apply Z.pow_pos_nonneg; lia).
  pose proof (Z.mod_pos_bound v (2 ^ bits R) ltac:(lia)) as Hm.
  rewrite andb_true_iff, !Z.leb_le.
  destruct (is_signed R); simpl.
  - destruct (Z.leb_spec (2 ^ (bits R - 1)) (v mod 2 ^ bits R)); lia.
  - lia.
Qed.

(** ** Laws of the computations *)

Lemma bind_ret_l {St A B} (a : A) (f : A -> M St B) (s : St) :
  bind (ret a) f s = f a s.
Proof. unfold bind, ret. destruct (f a s) as [[l s'] r]. reflexivity. Qed.

Lemma bind_get {St B} (f : St -> M St B) (s : St) :
  bind get f s = f s s.
Proof. unfold bind, get. destruct (f s s) as [[l s'] r]. reflexivity. Qed.

Lemma bind_put {St B} (s0 : St) (f : unit -> M St B) (s : St) :
  bind (put s0) f s = f tt s0.
Proof. unfold bind, put. destruct (f tt s0) as [[l s'] r]. reflexivity. Qed.

Lemma bind_signal {St B} (returns : bool) (e : event) (f : unit -> M St B) (s : St) :
  bind (signal returns e) f s =
    if returns then (e :: trace (f tt s), state (f tt s), result (f tt s))
    else ([e], s, None).
Proof.
  unfold bind, signal, trace, state, result.
  destruct returns; [ destruct (f tt s) as [[l s'] r] | ]; reflexivity.
Qed.

Lemma bind_lift {St A B} (e : Eff A) (f : A -> M St B) (s : St) :
  bind (lift e) f s =
    match e with
    | (l, Some a) => (l ++ trace (f a s), state (f a s), result (f a s))
    | (l, None) => (l, s, None)
    end.
Proof.
  unfold bind, lift, trace, state, result.
  destruct e as [l [a |]]; simpl; [ destruct (f a s) as [[l' s'] r] | ]; reflexivity.
Qed.

Lemma bind_assoc {St A B C} (m : M St A) (f : A -> M St B) (g : B -> M St C)
    (s : St) :
  bind (bind m f) g s = bind m (fun a => bind (f a) g) s.
Proof.
  unfold bind. destruct (m s) as [[l1 s1] [a |]]; [ | reflexivity ].
  destruct (f a s1) as [[l2 s2] [b |]]; [ | reflexivity ].
  destruct (g b s2) as [[l3 s3] r]. rewrite app_assoc. reflexivity.
Qed.

Lemma bind_run {St A B} (m : M St A) (f : A -> M St B) (s : St) :
  bind m f s =
    match result (m s) with
    | Some a =>
        let k := f a (state (m s)) in
        (trace (m s) ++ trace k, state k, result k)
    | None => (trace (m s), state (m s), None)
    end.
Proof.
  unfold bind, trace, state, result.
  destruct (m s) as [[l1 s1] [a |]]; simpl; [ | reflexivity ].
  destruct (f a s1) as [[l2 s2] r]. reflexivity.
Qed.

Lemma run_eta {St A} (r : list event * St * option A) :
  (trace r, state r, result r) = r.
Proof. destruct r as [[l s] o]. reflexivity. Qed.

(** ** Assignment *)

(** An assignment of a value the variant accepts goes through silently. *)
Lemma operator_assign_valid Stored validate E rhs this :
  validate rhs = true ->
  operator_assign Stored validate E rhs this =
    ([], SafeBase (convert Stored rhs), Some by_reference).
Proof.
  intros Hv. unfold operator_assign, when, return_self.
  rewrite Hv. cbn [negb]. rewrite bind_ret_l, bind_put. reflexivity.
Qed.

(** The same for a value the variant rejects. *)
Lemma operator_assign_invalid Stored validate E rhs this :
  validate rhs = false ->
  operator_assign Stored validate E rhs this =
    ([range_error "Invalid value passed on assignment"],
     (if range_error_returns E then SafeBase (convert Stored rhs) else this),
     (if range_error_returns E then Some by_reference else None)).
Proof.
  intros Hv. unfold operator_assign, when, return_self, E_range_error.
  rewrite Hv. cbn [negb]. rewrite bind_signal.
  destruct (range_error_returns E); [ | reflexivity ].
  rewrite bind_put. reflexivity.
Qed.

(** When the variant's domain lies within the stored type, a completed
    assignment leaves a datum the variant accepts: the value assigned. *)
Lemma operator_assign_read Stored validate E rhs this :
  0 < bits Stored ->
  (forall v, validate v = true -> in_range Stored v = true) ->
  validate rhs = true ->
  state (operator_assign Stored validate E rhs this) = SafeBase rhs.
Proof.
  intros Hb Hdom Hv. rewrite operator_assign_valid by exact Hv.
  unfold state. simpl. rewrite convert_in_range; auto.
Qed.

(** C2 (as amended): an assignment of a value the variant rejects calls
    [range_error] once, with the message of [operator=].  When the handler
    does not return, the datum is the one stored before; when it returns,
    the assignment goes on and the datum is [rhs] converted to the stored
    type. *)
Theorem assign_out_of_range Stored validate E this rhs :
  validate rhs = false ->
  operator_assign Stored validate E rhs this =
    ([range_error "Invalid value passed on assignment"],
     (if range_error_returns E then SafeBase (convert Stored rhs) else this),
     (if range_error_returns E then Some by_reference else None)).
Proof. apply operator_assign_invalid. Qed.

Lemma assign_out_of_range_witness :
  in_range uint32_t 4294967296 = false /\
  operator_assign uint32_t (in_range uint32_t) throwing 4294967296
      (SafeBase 4294967295) =
    ([range_error "Invalid value passed on assignment"],
     SafeBase 4294967295, None).
Proof.
  split; [ reflexivity | ].
  apply (assign_out_of_range uint32_t (in_range uint32_t) throwing
           (SafeBase 4294967295) 4294967296).
  reflexivity.
Defined.

(** C2 (as stated, refuted): over the unsigned 32-bit domain, construct
    from 4294967295 and assign 4294967296 under a policy whose handlers
    return: [range_error] is called, and the datum is then 0, not the
    4294967295 stored before. *)
Lemma assign_out_of_range_overwrites :
  constructor uint32_t (in_range uint32_t) returning 4294967295 =
    ([], Some (SafeBase 4294967295)) /\
  in_range uint32_t 4294967296 = false /\
  let r := operator_assign uint32_t (in_range uint32_t) returning 4294967296
             (SafeBase 4294967295) in
  trace r = [range_error "Invalid value passed on assignment"] /\
  result r = Some by_reference /\
  state r = SafeBase 0 /\
  state r <> SafeBase 4294967295.
Proof. vm_compute. repeat split. discriminate. Qed.

(** ** Construction *)

Lemma constructor_valid Stored validate E t :
  validate t = true ->
  constructor Stored validate E t = ([], Some (SafeBase (convert Stored t))).
Proof. intros Hv. unfold constructor, when. rewrite Hv. reflexivity. Qed.

Lemma constructor_invalid Stored validate E t :
  validate t = false ->
  constructor Stored validate E t =
    ([range_error "Invalid value"],
     if range_error_returns E then Some (SafeBase (convert Stored t)) else None).
Proof.
  intros Hv. unfold constructor, when, E_range_error, signal. rewrite Hv.
  destruct (range_error_returns E); reflexivity.
Qed.

(** A value of the variant's domain, when that domain lies within the
    stored type, is read back as it was given. *)
Lemma constructor_read Stored validate E t :
  0 < bits Stored ->
  (forall v, validate v = true -> in_range Stored v = true) ->
  validate t = true ->
  constructor Stored validate E t = ([], Some (SafeBase t)).
Proof.
  intros Hb Hdom Hv. rewrite constructor_valid by exact Hv.
  rewrite convert_in_range; auto.
Qed.

(** C10 (as amended): the member initialiser [m_t(t)] runs before the
    check.  For an input the variant rejects and a [range_error] that
    returns, the object exists, [range_error] was called once, and the
    datum is the input converted to the stored type: the input itself when
    the stored type can hold it, its wrap-around otherwise. *)
Theorem constructor_stores_before_validation Stored validate E t :
  0 < bits Stored ->
  validate t = false ->
  range_error_returns E = true ->
  constructor Stored validate E t =
    ([range_error "Invalid value"],
     Some (SafeBase (if in_range Stored t then t else convert Stored t))).
Proof.
  intros Hb Hv Hret. rewrite constructor_invalid by exact Hv. rewrite Hret.
  destruct (in_range Stored t) eqn:Hin; [ | reflexivity ].
  rewrite convert_in_range; auto.
Qed.

Lemma constructor_stores_before_validation_witness :
  0 < bits uint8_t /\
  interval 0 100 120 = false /\
  range_error_returns returning = true /\
  constructor uint8_t (interval 0 100) returning 120 =
    ([range_error "Invalid value"], Some (SafeBase 120)).
Proof.
  split; [ reflexivity | ]. split; [ reflexivity | ]. split; [ reflexivity | ].
  apply (constructor_stores_before_validation uint8_t (interval 0 100)
           returning 120); reflexivity.
Defined.

(** C10 (as stated, refuted): over the unsigned 32-bit domain, the input
    4294967296 is rejected, the handler returns, and the object holds 0,
    not the input. *)
Lemma constructor_out_of_range_wraps :
  in_range uint32_t 4294967296 = false /\
  constructor uint32_t (in_range uint32_t) returning 4294967296 =
    ([range_error "Invalid value"], Some (SafeBase 0)) /\
  SafeBase 0 <> SafeBase 4294967296.
Proof. vm_compute. repeat split. discriminate. Qed.

(** ** Compound assignment *)

(** What [operator=] does, by cases on the check. *)
Lemma operator_assign_run Stored validate E rhs this :
  operator_assign Stored validate E rhs this =
    if validate rhs then ([], SafeBase (convert Stored rhs), Some by_reference)
    else ([range_error "Invalid value passed on assignment"],
          (if range_error_returns E then SafeBase (convert Stored rhs) else this),
          (if range_error_returns E then Some by_reference else None)).
Proof.
  destruct (validate rhs) eqn:Hv.
  - apply operator_assign_valid. exact Hv.
  - apply operator_assign_invalid. exact Hv.
Qed.

(** [operator+=] stores what the binary operator hands back. *)
Lemma operator_plus_assign_run Stored binary rhs this :
  operator_plus_assign Stored binary rhs this =
    match binary plus (m_t this) rhs with
    | (l, Some r) => (l, SafeBase (convert Stored r), Some by_reference)
    | (l, None) => (l, this, None)
    end.
Proof.
  unfold operator_plus_assign, this_op.
  rewrite bind_assoc, bind_get, bind_lift.
  destruct (binary plus (m_t this) rhs) as [l [r |]]; [ | reflexivity ].
  rewrite bind_put. unfold return_self, ret, trace, state, result. simpl.
  rewrite app_nil_r. reflexivity.
Qed.

(** The other compound assignments hand it to [operator=]. *)
Lemma assign_this_op_run Stored validate E binary op rhs this :
  assign_this_op Stored validate E binary op rhs this =
    match binary op (m_t this) rhs with
    | (l, Some r) =>
        let a := operator_assign Stored validate E r this in
        (l ++ trace a, state a, result a)
    | (l, None) => (l, this, None)
    end.
Proof.
  unfold assign_this_op, this_op.
  rewrite bind_assoc, bind_get, bind_lift.
  destruct (binary op (m_t this) rhs) as [l [r |]]; [ | reflexivity ].
  rewrite bind_run, operator_assign_run.
  unfold return_self, ret, trace, state, result.
  destruct (validate r); simpl; [ rewrite app_nil_r; reflexivity | ].
  destruct (range_error_returns E); reflexivity.
Qed.

(** Under a [range_error] that does not return, and a domain within the
    stored type, a compound assignment that goes through [operator=]
    leaves a datum the variant accepts. *)
Lemma assign_this_op_invariant Stored validate E binary op rhs this :
  0 < bits Stored ->
  (forall v, validate v = true -> in_range Stored v = true) ->
  range_error_returns E = false ->
  validate (m_t this) = true ->
  validate (m_t (state (assign_this_op Stored validate E binary op rhs this)))
    = true.
Proof.
  intros Hb Hdom Hthrow Hthis. rewrite assign_this_op_run.
  destruct (binary op (m_t this) rhs) as [l [r |]]; [ | exact Hthis ].
  cbv zeta. rewrite operator_assign_run, Hthrow.
  destruct (validate r) eqn:Hr; cbn [state fst snd m_t]; [ | exact Hthis ].
  rewrite convert_in_range; auto.
Qed.

Lemma operator_xor_assign_is_times Stored validate E binary rhs this :
  operator_xor_assign Stored validate E binary rhs this =
  operator_times_assign Stored validate E binary rhs this.
Proof. reflexivity. Qed.

(** C1 (the code departs from it): [operator+=] changes the datum without
    a call of [validate].  A [uint8_t] variant with domain [0, 100] holding
    100, incremented by [+= 1] with a binary [+] that yields 101: the datum
    becomes 101 and no handler is called, while [*this = *this + 1], the
    form of the sibling operators, calls [range_error] and keeps 100. *)
Theorem plus_assign_stores_unvalidated :
  let validate := interval 0 100 in
  let binary := promoted_int throwing in
  let r := operator_plus_assign uint8_t binary 1 (SafeBase 100) in
  trace r = [] /\
  result r = Some by_reference /\
  state r = SafeBase 101 /\
  validate (m_t (state r)) = false /\
  assign_this_op uint8_t validate throwing binary plus 1 (SafeBase 100) =
    ([range_error "Invalid value passed on assignment"], SafeBase 100, None).
Proof. vm_compute. repeat split. Qed.

(** C5 (the code departs from it): [operator^=] assigns [*this * rhs].
    For 6 and 3 it stores 18, as [operator*=] does; 6 xor 3 is 5. *)
Theorem xor_assign_multiplies :
  let validate := interval 0 255 in
  let binary := promoted_int throwing in
  let r := operator_xor_assign uint8_t validate throwing binary 3 (SafeBase 6) in
  r = ([], SafeBase 18, Some by_reference) /\
  r = operator_times_assign uint8_t validate throwing binary 3 (SafeBase 6) /\
  binary bit_xor 6 3 = ([], Some 5) /\
  state r <> SafeBase 5.
Proof. vm_compute. repeat split. discriminate. Qed.

(** ** Increment and decrement *)

Lemma operator_pre_increment_run Stored validate E binary this :
  operator_pre_increment Stored validate E binary this =
    match binary plus (m_t this) 1 with
    | (l, Some r) =>
        let a := operator_assign Stored validate E r this in
        (l ++ trace a, state a,
         match result a with
         | Some _ => Some (by_value (state a))
         | None => None
         end)
    | (l, None) => (l, this, None)
    end.
Proof.
  unfold operator_pre_increment, this_op.
  rewrite bind_assoc, bind_get, bind_lift.
  destruct (binary plus (m_t this) 1) as [l [r |]]; [ | reflexivity ].
  rewrite bind_run, operator_assign_run.
  unfold return_copy, get, ret, bind, trace, state, result.
  destruct (validate r); simpl; [ rewrite app_nil_r; reflexivity | ].
  destruct (range_error_returns E); reflexivity.
Qed.

(** The postfix operators run the binary operator and the check, and then
    change only the local [t]. *)
Lemma operator_post_increment_run Stored validate E binary this :
  operator_post_increment Stored validate E binary this =
    match binary plus (m_t this) 1 with
    | (l, Some r) =>
        if validate r then (l, this, Some (by_value this))
        else (l ++ [overflow_error "Overflow on increment"], this,
              if overflow_error_returns E then Some (by_value this) else None)
    | (l, None) => (l, this, None)
    end.
Proof.
  unfold operator_post_increment, this_op.
  rewrite bind_get, bind_assoc, bind_get, bind_lift.
  destruct (binary plus (m_t this) 1) as [l [r |]]; [ | reflexivity ].
  unfold when, E_overflow_error.
  destruct (validate r); cbn [negb].
  - rewrite bind_ret_l. unfold return_copy. rewrite bind_get.
    unfold ret, trace, state, result. simpl. rewrite app_nil_r. reflexivity.
  - rewrite bind_signal. unfold return_copy. rewrite bind_get.
    unfold ret, trace, state, result.
    destruct (overflow_error_returns E); reflexivity.
Qed.

Lemma operator_post_decrement_run Stored validate E binary this :
  operator_post_decrement Stored validate E binary this =
    match binary minus (m_t this) 1 with
    | (l, Some r) =>
        if validate r then (l, this, Some by_reference)
        else (l ++ [overflow_error "Overflow on increment"], this,
              if overflow_error_returns E then Some by_reference else None)
    | (l, None) => (l, this, None)
    end.
Proof.
  unfold operator_post_decrement, this_op.
  rewrite bind_get, bind_assoc, bind_get, bind_lift.
  destruct (binary minus (m_t this) 1) as [l [r |]]; [ | reflexivity ].
  unfold when, E_overflow_error.
  destruct (validate r); cbn [negb].
  - rewrite bind_ret_l.
    unfold return_self, ret, trace, state, result. simpl.
    rewrite app_nil_r. reflexivity.
  - rewrite bind_signal.
    unfold return_self, ret, trace, state, result.
    destruct (overflow_error_returns E); reflexivity.
Qed.

(** Neither postfix operator changes the datum. *)
Lemma operator_post_increment_state Stored validate E binary this :
  state (operator_post_increment Stored validate E binary this) = this.
Proof.
  rewrite operator_post_increment_run.
  destruct (binary plus (m_t this) 1) as [l [r |]]; [ | reflexivity ].
  destruct (validate r); reflexivity.
Qed.

Lemma operator_post_decrement_state Stored validate E binary this :
  state (operator_post_decrement Stored validate E binary this) = this.
Proof.
  rewrite operator_post_decrement_run.
  destruct (binary minus (m_t this) 1) as [l [r |]]; [ | reflexivity ].
  destruct (validate r); reflexivity.
Qed.

(** What postfix increment hands back is a copy of the object as it was. *)
Lemma operator_post_increment_result Stored validate E binary this c :
  result (operator_post_increment Stored validate E binary this) = Some c ->
  c = by_value this.
Proof.
  rewrite operator_post_increment_run.
  destruct (binary plus (m_t this) 1) as [l [r |]]; [ | discriminate ].
  destruct (validate r); [ unfold result; simpl; congruence | ].
  destruct (overflow_error_returns E); unfold result; simpl; congruence.
Qed.

(** What postfix decrement hands back is the object. *)
Lemma operator_post_decrement_result Stored validate E binary this c :
  result (operator_post_decrement Stored validate E binary this) = Some c ->
  c = by_reference.
Proof.
  rewrite operator_post_decrement_run.
  destruct (binary minus (m_t this) 1) as [l [r |]]; [ | discriminate ].
  destruct (validate r); [ unfold result; simpl; congruence | ].
  destruct (overflow_error_returns E); unfold result; simpl; congruence.
Qed.

(** C3 (the code departs from it): postfix increment checks [*this + 1]
    and hands back a copy of the object, but increments the local [t]
    only.  On a variant with domain [0, 100] holding 5, the check passes,
    the copy holds 5, and the datum is still 5, not 6. *)
Theorem post_increment_keeps_datum :
  let r := operator_post_increment uint8_t (interval 0 100) throwing
             (promoted_int throwing) (SafeBase 5) in
  trace r = [] /\
  result r = Some (by_value (SafeBase 5)) /\
  state r = SafeBase 5 /\
  state r <> SafeBase (5 + 1).
Proof. vm_compute. repeat split. discriminate. Qed.

(** C4 (as amended): over the signed 8-bit domain, construct from 127 and
    apply prefix increment, with a binary [+] that checks 128 against that
    domain.  [overflow_error] is called first.  Unless [overflow_error]
    and [range_error] both return, the increment ends by an exception and
    the datum is still 127.  When both return, [operator=] stores 128
    converted to 8 bits, which is -128.  The datum is never 128. *)
Theorem pre_increment_at_max (E : exception_policy) :
  let validate := interval (-128) 127 in
  let both := overflow_error_returns E && range_error_returns E in
  let r := operator_pre_increment int8_t validate E (checked_int8 E)
             (SafeBase 127) in
  constructor int8_t validate E 127 = ([], Some (SafeBase 127)) /\
  hd_error (trace r) = Some (overflow_error overflow_message) /\
  state r = (if both then SafeBase (-128) else SafeBase 127) /\
  result r = (if both then Some (by_value (SafeBase (-128))) else None) /\
  state r <> SafeBase 128.
Proof. destruct E as [[] []]; vm_compute; repeat split; discriminate. Qed.

(** C4 (as stated, refuted): under a policy whose handlers return, the
    prefix increment of 127 calls [overflow_error] and then leaves the
    wrapped -128 in the object. *)
Lemma pre_increment_wraps :
  let validate := interval (-128) 127 in
  let r := operator_pre_increment int8_t validate returning
             (checked_int8 returning) (SafeBase 127) in
  trace r = [overflow_error overflow_message;
             range_error "Invalid value passed on assignment"] /\
  result r = Some (by_value (SafeBase (-128))) /\
  state r = SafeBase (-128).
Proof. vm_compute. repeat split. Qed.

(** With a binary [+] that holds 128 in a 32-bit [int] without complaint,
    the handler called by the same increment is [range_error], from
    [operator=]. *)
Lemma pre_increment_promoted_int :
  operator_pre_increment int8_t (interval (-128) 127) throwing
    (promoted_int throwing) (SafeBase 127) =
  ([range_error "Invalid value passed on assignment"], SafeBase 127, None).
Proof. vm_compute. reflexivity. Qed.

(** ** Unary minus *)

(** What the statements of [operator-()] would do on an object that can
    be assigned to: the binary [0 - *this], then [operator=] on its
    result, then a copy of the object. *)
Lemma operator_negate_statements_run Stored validate E binary this :
  operator_negate_statements Stored validate E binary this =
    match binary minus 0 (m_t this) with
    | (l, Some r) =>
        let a := operator_assign Stored validate E r this in
        (l ++ trace a, state a,
         match result a with
         | Some _ => Some (by_value (state a))
         | None => None
         end)
    | (l, None) => (l, this, None)
    end.
Proof.
  unfold operator_negate_statements, op_this.
  rewrite bind_assoc, bind_get, bind_lift.
  destruct (binary minus 0 (m_t this)) as [l [r |]]; [ | reflexivity ].
  rewrite bind_run, operator_assign_run.
  unfold return_copy, get, ret, bind, trace, state, result.
  destruct (validate r); simpl; [ rewrite app_nil_r; reflexivity | ].
  destruct (range_error_returns E); reflexivity.
Qed.

(** C9 (the code departs from it): unary minus is defined for no stored
    type.  For an unsigned one the [static_assert] rejects it, as the
    claim says.  For a signed one the member function is declared [const]
    and assigns to [*this], so it is rejected as well: on a signed 8-bit
    variant [-x] is no program, where the claim has it computed as
    [0 - x]. *)
Theorem unary_minus_ill_formed Stored validate E binary :
  operator_negate Stored validate E binary =
    ill_formed
      (if is_signed Stored then const_violation
       else "Application of unary minus to unsigned value is an error"%string) /\
  operator_negate int8_t (interval (-128) 127) throwing (promoted_int throwing) =
    ill_formed const_violation.
Proof.
  split; [ | reflexivity ].
  unfold operator_negate, static_assert, assigns_to_this.
  destruct (is_signed Stored); reflexivity.
Qed.

(** ** Comparison *)

Lemma widen_nonneg (v : Z) : 0 <= v -> safe_compare.widen v = v.
Proof. intros Hv. unfold safe_compare.widen. apply Z2N.id. exact Hv. Qed.

(** [less_than] is never true both ways. *)
Lemma less_than_asymmetric (a b : integer) :
  safe_compare.less_than a b = true -> safe_compare.less_than b a = false.
Proof.
  unfold safe_compare.less_than.
  destruct (is_signed (type_of a)), (is_signed (type_of b)); simpl.
  - rewrite Z.ltb_lt, Z.ltb_ge. lia.
  - destruct (Z.ltb_spec (value a) 0) as [Hneg | Hnn]; [ reflexivity | ].
    rewrite widen_nonneg by exact Hnn. rewrite Z.ltb_lt, Z.ltb_ge. lia.
  - destruct (Z.ltb_spec (value b) 0) as [Hneg | Hnn]; [ discriminate | ].
    rewrite widen_nonneg by exact Hnn. rewrite Z.ltb_lt, Z.ltb_ge. lia.
  - rewrite Z.ltb_lt, Z.ltb_ge. lia.
Qed.

(** On values, [less_than] is the order of the integers, whatever the two
    types. *)
Lemma less_than_value (a b : integer) :
  in_range (type_of a) (value a) = true ->
  in_range (type_of b) (value b) = true ->
  safe_compare.less_than a b = (value a <? value b).
Proof.
  unfold safe_compare.less_than, in_range, type_min.
  destruct (is_signed (type_of a)), (is_signed (type_of b)); simpl;
    rewrite !andb_true_iff, !Z.leb_le; intros [Ha _] [Hb _]; try reflexivity.
  - destruct (Z.ltb_spec (value a) 0) as [Hneg | Hnn].
    + symmetry. apply Z.ltb_lt. lia.
    + rewrite widen_nonneg by exact Hnn. reflexivity.
  - destruct (Z.ltb_spec (value b) 0) as [Hneg | Hnn].
    + symmetry. apply Z.ltb_ge. lia.
    + rewrite widen_nonneg by exact Hnn. reflexivity.
Qed.

(** C6: of [less_than(a,b)], [less_than(b,a)] and [equal(a,b)] exactly one
    holds, for operands of any two types; -1 is less than 0 and less than
    the unsigned 4294967295, which is not less than -1. *)
Theorem comparison_totality :
  (forall a b : integer,
     let lt := safe_compare.less_than a b in
     let gt := safe_compare.less_than b a in
     let eq := safe_compare.equal a b in
     (lt = true /\ gt = false /\ eq = false) \/
     (lt = false /\ gt = true /\ eq = false) \/
     (lt = false /\ gt = false /\ eq = true)) /\
  safe_compare.less_than (Integer int32_t (-1)) (Integer int32_t 0) = true /\
  safe_compare.less_than (Integer int32_t (-1)) (Integer uint32_t 0) = true /\
  safe_compare.less_than (Integer int32_t (-1)) (Integer uint32_t 4294967295) = true /\
  safe_compare.less_than (Integer uint32_t 4294967295) (Integer int32_t (-1)) = false.
Proof.
  split; [ | repeat split ].
  intros a b. cbv zeta. unfold safe_compare.equal.
  destruct (safe_compare.less_than a b) eqn:Hab.
  - rewrite (less_than_asymmetric a b Hab). left. repeat split.
  - destruct (safe_compare.less_than b a); [ right; left | right; right ];
      repeat split.
Qed.

(** C7: [!=], [>=] and [<=] are the negations of [==], [<] and [>], for
    every object, every right-hand operand of any type, and whatever the
    three comparison functions are. *)
Theorem relational_complements Stored
    (less_than greater_than equal : integer -> integer -> bool)
    (this : safe_base) (rhs : integer) :
  (operator_ne Stored equal this rhs = true <->
     operator_eq Stored equal this rhs <> true) /\
  (operator_ge Stored less_than this rhs = true <->
     operator_lt Stored less_than this rhs <> true) /\
  (operator_le Stored greater_than this rhs = true <->
     operator_gt Stored greater_than this rhs <> true).
Proof.
  unfold operator_ne, operator_eq, operator_ge, operator_lt, operator_le,
    operator_gt.
  repeat split; intros H;
    solve [ apply not_true_iff_false, negb_true_iff; exact H
          | apply negb_true_iff, not_true_iff_false; exact H ].
Qed.

(** ** Results bound by the caller *)

Lemma call_run (a : positive) (f : M safe_base returned)
    (h : gmap positive safe_base) (this : safe_base) :
  h !! a = Some this ->
  call a f h =
    (trace (f this), <[a := state (f this)]> h,
     match result (f this) with
     | Some (by_value c) => Some (temporary c)
     | Some by_reference => Some (alias a)
     | None => None
     end).
Proof.
  intros Ha. unfold call, trace, state, result. rewrite Ha.
  destruct (f this) as [[l this1] r]. reflexivity.
Qed.

(** A result of postfix increment, read after a later assignment to the
    object, still shows the datum of before. *)
Lemma captured_post_increment Stored validate E binary a v
    (h : gmap positive safe_base) (this : safe_base) (x : Z) :
  h !! a = Some this ->
  result (capture_then_assign Stored validate E a
            (operator_post_increment Stored validate E binary) v h) = Some x ->
  x = m_t this.
Proof.
  intros Ha. unfold capture_then_assign.
  rewrite bind_run, (call_run a _ h this Ha).
  rewrite operator_post_increment_state.
  destruct (result (operator_post_increment Stored validate E binary this))
    as [c |] eqn:Hc; cbn [state trace result fst snd]; [ | discriminate ].
  apply operator_post_increment_result in Hc. subst c.
  rewrite bind_run.
  rewrite (call_run a _ (<[a := this]> h) this) by apply lookup_insert_eq.
  rewrite operator_assign_run.
  destruct (validate v); [ | destruct (range_error_returns E) ];
    cbn [state trace result fst snd read]; congruence.
Qed.

(** A result of postfix decrement, read after a later assignment to the
    object, shows the datum assigned. *)
Lemma captured_post_decrement Stored validate E binary a v
    (h : gmap positive safe_base) (this : safe_base) (x : Z) :
  h !! a = Some this ->
  result (capture_then_assign Stored validate E a
            (operator_post_decrement Stored validate E binary) v h) = Some x ->
  x = convert Stored v.
Proof.
  intros Ha. unfold capture_then_assign.
  rewrite bind_run, (call_run a _ h this Ha).
  rewrite operator_post_decrement_state.
  destruct (result (operator_post_decrement Stored validate E binary this))
    as [c |] eqn:Hc; cbn [state trace result fst snd]; [ | discriminate ].
  apply operator_post_decrement_result in Hc. subst c.
  rewrite bind_run.
  rewrite (call_run a _ (<[a := this]> h) this) by apply lookup_insert_eq.
  rewrite operator_assign_run.
  destruct (validate v); [ | destruct (range_error_returns E) ];
    cbn [state trace result fst snd read]; try discriminate;
    rewrite lookup_insert_eq; cbn [m_t result snd]; congruence.
Qed.

(** C8 (the code departs from it): postfix decrement returns [Derived &],
    the object itself.  On a variant with domain [0, 100] holding 5, bind
    the result of [x--], assign 9 to [x], read the bound result: it shows
    9.  The same with [x++], which returns [Derived], shows 5. *)
Theorem post_decrement_returns_alias :
  let validate := interval 0 100 in
  let binary := promoted_int throwing in
  let x := 1%positive in
  let h : gmap positive safe_base := {[ x := SafeBase 5 ]} in
  result (call x (operator_post_decrement uint8_t validate throwing binary) h)
    = Some (alias x) /\
  result (capture_then_assign uint8_t validate throwing x
            (operator_post_decrement uint8_t validate throwing binary) 9 h)
    = Some 9 /\
  result (capture_then_assign uint8_t validate throwing x
            (operator_post_increment uint8_t validate throwing binary) 9 h)
    = Some 5.
Proof. vm_compute. repeat split. Qed.

(** * Further properties of safe_base *)

(** ** The bounds of the stored type *)

Lemma interval_in_range (R : int_type) (lo hi v : Z) :
  in_range R lo = true -> in_range R hi = true ->
  interval lo hi v = true -> in_range R v = true.
Proof.
  unfold in_range, interval. rewrite !andb_true_iff, !Z.leb_le. lia.
Qed.

Lemma in_range_above_max (R : int_type) : in_range R (type_max R + 1) = false.
Proof.
  unfold in_range. apply andb_false_iff. right. apply Z.leb_gt. lia.
Qed.

Lemma in_range_below_min (R : int_type) : in_range R (type_min R - 1) = false.
Proof.
  unfold in_range. apply andb_false_iff. left. apply Z.leb_gt. lia.
Qed.

(** One past the largest value converts to the smallest. *)
Lemma convert_above_max (R : int_type) :
  0 < bits R -> convert R (type_max R + 1) = type_min R.
Proof.
  intros Hb. unfold convert, type_max, type_min.
  pose proof (pow2_split (bits R) Hb) as Hsplit.
  assert (0 < 2 ^ (bits R - 1)) as Hpos by (apply Z.pow_pos_nonneg; lia).
  destruct (is_signed R); simpl.
  - replace (2 ^ (bits R - 1) - 1 + 1) with (2 ^ (bits R - 1)) by lia.
    rewrite Z.mod_small by lia.
    destruct (Z.leb_spec (2 ^ (bits R - 1)) (2 ^ (bits R - 1))); lia.
  - replace (2 ^ bits R - 1 + 1) with (2 ^ bits R) by lia.
    apply Z.mod_same. lia.
Qed.

(** One below the smallest value converts to the largest. *)
Lemma convert_below_min (R : int_type) :
  0 < bits R -> convert R (type_min R - 1) = type_max R.
Proof.
  intros Hb. unfold convert, type_max, type_min.
  pose proof (pow2_split (bits R) Hb) as Hsplit.
  assert (0 < 2 ^ (bits R - 1)) as Hpos by (apply Z.pow_pos_nonneg; lia).
  destruct (is_signed R); simpl.
  - assert ((- 2 ^ (bits R - 1) - 1) mod 2 ^ bits R = 2 ^ (bits R - 1) - 1)
      as ->.
    { symmetry. apply Z.mod_unique with (q := -1); lia. }
    destruct (Z.leb_spec (2 ^ (bits R - 1)) (2 ^ (bits R - 1) - 1)); lia.
  - symmetry. apply Z.mod_unique with (q := -1); lia.
Qed.

(** The complement of a value of a signed type is a value of that type. *)
Lemma in_range_lnot (R : int_type) (v : Z) :
  is_signed R = true -> in_range R v = true -> in_range R (Z.lnot v) = true.
Proof.
  intros Hs. unfold in_range, type_min, type_max. rewrite Hs.
  rewrite !andb_true_iff, !Z.leb_le. unfold Z.lnot. lia.
Qed.

(** ** The remaining run lemmas *)

Lemma get_stored_value_run (this : safe_base) :
  get_stored_value this = ([], this, Some (m_t this)).
Proof. reflexivity. Qed.

Lemma operator_pre_decrement_run Stored validate E binary this :
  operator_pre_decrement Stored validate E binary this =
    match binary minus (m_t this) 1 with
    | (l, Some r) =>
        let a := operator_assign Stored validate E r this in
        (l ++ trace a, state a,
         match result a with
         | Some _ => Some (by_value (state a))
         | None => None
         end)
    | (l, None) => (l, this, None)
    end.
Proof.
  unfold operator_pre_decrement, this_op.
  rewrite bind_assoc, bind_get, bind_lift.
  destruct (binary minus (m_t this) 1) as [l [r |]]; [ | reflexivity ].
  rewrite bind_run, operator_assign_run.
  unfold return_copy, get, ret, bind, trace, state, result.
  destruct (validate r); simpl; [ rewrite app_nil_r; reflexivity | ].
  destruct (range_error_returns E); reflexivity.
Qed.

(** The body of bitwise complement. *)
Lemma complement_body_run validate E this :
  (this' <- get ;;
   when (negb (validate (Z.lnot (m_t this'))))
        (E_overflow_error E "Overflow on increment") ;;
   return_copy) this =
    if validate (Z.lnot (m_t this)) then ([], this, Some (by_value this))
    else ([overflow_error "Overflow on increment"], this,
          if overflow_error_returns E then Some (by_value this) else None).
Proof.
  rewrite bind_get. unfold when, E_overflow_error.
  destruct (validate (Z.lnot (m_t this))); cbn [negb].
  - reflexivity.
  - rewrite bind_signal. destruct (overflow_error_returns E); reflexivity.
Qed.

(** ** Construction and reading *)

(** X1: a value the variant accepts, the domain lying within the stored
    type, is constructed without a handler call and read back unchanged by
    [get_stored_value], under any exception policy. *)
Theorem construct_then_read Stored validate E t :
  0 < bits Stored ->
  (forall v, validate v = true -> in_range Stored v = true) ->
  validate t = true ->
  exists this : safe_base,
    constructor Stored validate E t = ([], Some this) /\
    get_stored_value this = ([], this, Some t).
Proof.
  intros Hb Hdom Hv. exists (SafeBase t). split.
  - apply constructor_read; assumption.
  - apply get_stored_value_run.
Qed.

Lemma construct_then_read_witness :
  exists this : safe_base,
    constructor uint8_t (interval 0 100) throwing 42 = ([], Some this) /\
    get_stored_value this = ([], this, Some 42).
Proof.
  apply (construct_then_read uint8_t (interval 0 100) throwing 42).
  - reflexivity.
  - intros v. apply interval_in_range; reflexivity.
  - reflexivity.
Defined.

(** X2: under a [range_error] that does not return, the constructor
    yields an object exactly for the inputs the variant accepts: the
    object then holds the input and no handler was called; otherwise
    there is no object and [range_error] was called once. *)
Theorem constructor_establishes_invariant Stored validate E t :
  0 < bits Stored ->
  (forall v, validate v = true -> in_range Stored v = true) ->
  range_error_returns E = false ->
  match constructor Stored validate E t with
  | (l, Some this) =>
      l = [] /\ this = SafeBase t /\ validate (m_t this) = true
  | (l, None) =>
      l = [range_error "Invalid value"] /\ validate t = false
  end.
Proof.
  intros Hb Hdom Hthrow. destruct (validate t) eqn:Hv.
  - rewrite constructor_read by assumption. repeat split. exact Hv.
  - rewrite constructor_invalid by exact Hv. rewrite Hthrow. split; reflexivity.
Qed.

Lemma constructor_establishes_invariant_witness :
  match constructor uint8_t (interval 0 100) throwing 101 with
  | (l, Some this) =>
      l = [] /\ this = SafeBase 101 /\ interval 0 100 (m_t this) = true
  | (l, None) =>
      l = [range_error "Invalid value"] /\ interval 0 100 101 = false
  end.
Proof.
  apply (constructor_establishes_invariant uint8_t (interval 0 100) throwing 101).
  - reflexivity.
  - intros v. apply interval_in_range; reflexivity.
  - reflexivity.
Defined.

(** ** Assignment *)

(** X3: after the assignment of a value the variant accepts,
    [get_stored_value] reads that value, whatever the object held before
    and whatever the policy; no handler is called. *)
Theorem assign_then_read Stored validate E rhs this :
  0 < bits Stored ->
  (forall v, validate v = true -> in_range Stored v = true) ->
  validate rhs = true ->
  (operator_assign Stored validate E rhs ;; get_stored_value) this =
    ([], SafeBase rhs, Some rhs).
Proof.
  intros Hb Hdom Hv. rewrite bind_run.
  rewrite operator_assign_valid by exact Hv.
  cbn [state trace result fst snd]. rewrite get_stored_value_run.
  rewrite convert_in_range by auto. reflexivity.
Qed.

Lemma assign_then_read_witness :
  (operator_assign uint8_t (interval 0 100) throwing 7 ;; get_stored_value)
    (SafeBase 99) = ([], SafeBase 7, Some 7).
Proof.
  apply (assign_then_read uint8_t (interval 0 100) throwing 7 (SafeBase 99)).
  - reflexivity.
  - intros v. apply interval_in_range; reflexivity.
  - reflexivity.
Defined.

(** X4: [operator=], [operator+=], the compound assignments written
    [*this = *this OP rhs] and the prefix increment and decrement either
    return to their caller or leave the object as it was: an exception,
    from the binary operator or from [range_error], never leaves a
    half-made change. *)
Theorem exception_leaves_object_unchanged Stored validate E binary op rhs this :
  let completes_or_unchanged (r : list event * safe_base * option returned) :=
    result r <> None \/ state r = this in
  completes_or_unchanged (operator_assign Stored validate E rhs this) /\
  completes_or_unchanged (operator_plus_assign Stored binary rhs this) /\
  completes_or_unchanged (assign_this_op Stored validate E binary op rhs this) /\
  completes_or_unchanged (operator_pre_increment Stored validate E binary this) /\
  completes_or_unchanged (operator_pre_decrement Stored validate E binary this).
Proof.
  cbv zeta.
  assert (forall r, result (operator_assign Stored validate E r this) <> None \/
                    state (operator_assign Stored validate E r this) = this)
    as Hassign.
  { intros r. rewrite operator_assign_run.
    destruct (validate r); [ left; discriminate | ].
    destruct (range_error_returns E); [ left; discriminate | right; reflexivity ]. }
  split; [ apply Hassign | ].
  split.
  { rewrite operator_plus_assign_run.
    destruct (binary plus (m_t this) rhs) as [l [r |]];
      [ left; discriminate | right; reflexivity ]. }
  split.
  { rewrite assign_this_op_run.
    destruct (binary op (m_t this) rhs) as [l [r |]]; [ | right; reflexivity ].
    destruct (Hassign r) as [Hr | Hs]; [ left; exact Hr | right; exact Hs ]. }
  split.
  - rewrite operator_pre_increment_run.
    destruct (binary plus (m_t this) 1) as [l [r |]]; [ | right; reflexivity ].
    destruct (Hassign r) as [Hr | Hs]; [ left | right; exact Hs ].
    cbv zeta. unfold result at 1. cbn [snd].
    destruct (result (operator_assign Stored validate E r this));
      [ discriminate | congruence ].
  - rewrite operator_pre_decrement_run.
    destruct (binary minus (m_t this) 1) as [l [r |]]; [ | right; reflexivity ].
    destruct (Hassign r) as [Hr | Hs]; [ left | right; exact Hs ].
    cbv zeta. unfold result at 1. cbn [snd].
    destruct (result (operator_assign Stored validate E r this));
      [ discriminate | congruence ].
Qed.

(** X5: under a [range_error] that does not return and a domain within
    the stored type, whatever goes through [operator=] keeps a valid
    datum valid: the assignment itself, the compound assignments written
    [*this = *this OP rhs], and the prefix increment and decrement. *)
Theorem assignment_paths_keep_invariant Stored validate E binary op rhs this :
  0 < bits Stored ->
  (forall v, validate v = true -> in_range Stored v = true) ->
  range_error_returns E = false ->
  validate (m_t this) = true ->
  validate (m_t (state (operator_assign Stored validate E rhs this))) = true /\
  validate (m_t (state (assign_this_op Stored validate E binary op rhs this)))
    = true /\
  validate (m_t (state (operator_pre_increment Stored validate E binary this)))
    = true /\
  validate (m_t (state (operator_pre_decrement Stored validate E binary this)))
    = true.
Proof.
  intros Hb Hdom Hthrow Hthis.
  assert (forall r,
            validate (m_t (state (operator_assign Stored validate E r this)))
              = true) as Hassign.
  { intros r. rewrite operator_assign_run, Hthrow.
    destruct (validate r) eqn:Hr; cbn [state fst snd m_t]; [ | exact Hthis ].
    rewrite convert_in_range; auto. }
  split; [ apply Hassign | ].
  split; [ apply assign_this_op_invariant; assumption | ].
  split.
  - rewrite operator_pre_increment_run.
    destruct (binary plus (m_t this) 1) as [l [r |]]; [ | exact Hthis ].
    apply Hassign.
  - rewrite operator_pre_decrement_run.
    destruct (binary minus (m_t this) 1) as [l [r |]]; [ | exact Hthis ].
    apply Hassign.
Qed.

Lemma assignment_paths_keep_invariant_witness :
  let validate := interval 0 100 in
  let binary := promoted_int throwing in
  validate (m_t (state (operator_assign uint8_t validate throwing 200
                          (SafeBase 100)))) = true /\
  validate (m_t (state (assign_this_op uint8_t validate throwing binary
                          times 200 (SafeBase 100)))) = true /\
  validate (m_t (state (operator_pre_increment uint8_t validate throwing
                          binary (SafeBase 100)))) = true /\
  validate (m_t (state (operator_pre_decrement uint8_t validate throwing
                          binary (SafeBase 100)))) = true.
Proof.
  apply (assignment_paths_keep_invariant uint8_t (interval 0 100) throwing
           (promoted_int throwing) times 200 (SafeBase 100)).
  - reflexivity.
  - intros v. apply interval_in_range; reflexivity.
  - reflexivity.
  - reflexivity.
Defined.

(** ** Compound assignment *)

(** X6: [operator+=] adds no check of its own.  The handler calls of
    [x += rhs] are those of the binary [+]; when [+] returns, its result,
    converted to the stored type, becomes the datum whether the variant
    accepts it or not, and when [+] ends by an exception the object is
    unchanged. *)
Theorem plus_assign_adds_no_check Stored binary rhs this :
  let sum := binary plus (m_t this) rhs in
  let r := operator_plus_assign Stored binary rhs this in
  trace r = fst sum /\
  match snd sum with
  | Some v => state r = SafeBase (convert Stored v) /\
              result r = Some by_reference
  | None => state r = this /\ result r = None
  end.
Proof.
  cbv zeta. rewrite operator_plus_assign_run.
  destruct (binary plus (m_t this) rhs) as [l [v |]]; repeat split.
Qed.

(** X7: where the binary [+] yields only values the variant accepts,
    [x += rhs] and [x = x + rhs] do the same. *)
Theorem plus_assign_agrees_when_valid Stored validate E binary rhs this :
  (forall v, snd (binary plus (m_t this) rhs) = Some v -> validate v = true) ->
  operator_plus_assign Stored binary rhs this =
  assign_this_op Stored validate E binary plus rhs this.
Proof.
  intros Hvalid. rewrite operator_plus_assign_run, assign_this_op_run.
  destruct (binary plus (m_t this) rhs) as [l [v |]]; [ | reflexivity ].
  cbv zeta. rewrite operator_assign_valid by (apply Hvalid; reflexivity).
  cbn [state trace result fst snd]. rewrite app_nil_r. reflexivity.
Qed.

Lemma plus_assign_agrees_when_valid_witness :
  operator_plus_assign uint8_t (promoted_int throwing) 1 (SafeBase 5) =
  assign_this_op uint8_t (interval 0 100) throwing (promoted_int throwing)
    plus 1 (SafeBase 5).
Proof.
  apply (plus_assign_agrees_when_valid uint8_t (interval 0 100) throwing
           (promoted_int throwing) 1 (SafeBase 5)).
  intros v Hv. vm_compute in Hv. injection Hv as <-. reflexivity.
Defined.

(** ** Increment and decrement *)

(** X8: where the binary operators yield the exact successor and
    predecessor and the variant accepts both values, prefix increment
    stores the successor and hands back a copy holding it, and a prefix
    decrement after it brings the object back to what it was; no handler
    is called. *)
Theorem increment_then_decrement Stored validate E binary this :
  0 < bits Stored ->
  (forall v, validate v = true -> in_range Stored v = true) ->
  validate (m_t this) = true ->
  validate (m_t this + 1) = true ->
  binary plus (m_t this) 1 = ([], Some (m_t this + 1)) ->
  binary minus (m_t this + 1) 1 = ([], Some (m_t this)) ->
  operator_pre_increment Stored validate E binary this =
    ([], SafeBase (m_t this + 1), Some (by_value (SafeBase (m_t this + 1)))) /\
  (operator_pre_increment Stored validate E binary ;;
   operator_pre_decrement Stored validate E binary) this =
    ([], this, Some (by_value this)).
Proof.
  intros Hb Hdom Hthis Hnext Hplus Hminus.
  assert (operator_pre_increment Stored validate E binary this =
            ([], SafeBase (m_t this + 1),
             Some (by_value (SafeBase (m_t this + 1))))) as Hinc.
  { rewrite operator_pre_increment_run, Hplus. cbv zeta.
    rewrite operator_assign_valid by exact Hnext.
    cbn [state trace result fst snd app].
    rewrite convert_in_range by auto. reflexivity. }
  split; [ exact Hinc | ].
  rewrite bind_run, Hinc. cbn [state trace result fst snd app].
  rewrite operator_pre_decrement_run. cbn [m_t]. rewrite Hminus. cbv zeta.
  rewrite operator_assign_valid by exact Hthis.
  cbn [state trace result fst snd app].
  rewrite convert_in_range by auto. destruct this. reflexivity.
Qed.

Lemma increment_then_decrement_witness :
  let validate := interval 0 100 in
  let binary := promoted_int throwing in
  operator_pre_increment uint8_t validate throwing binary (SafeBase 5) =
    ([], SafeBase 6, Some (by_value (SafeBase 6))) /\
  (operator_pre_increment uint8_t validate throwing binary ;;
   operator_pre_decrement uint8_t validate throwing binary) (SafeBase 5) =
    ([], SafeBase 5, Some (by_value (SafeBase 5))).
Proof.
  apply (increment_then_decrement uint8_t (interval 0 100) throwing
           (promoted_int throwing) (SafeBase 5)).
  - reflexivity.
  - intros v. apply interval_in_range; reflexivity.
  - reflexivity.
  - reflexivity.
  - reflexivity.
  - reflexivity.
Defined.

(** X9: for a variant whose domain is the whole stored type, and a binary
    [+] that yields the exact successor, prefix increment of the largest
    value calls [range_error]; when the handler does not return the object
    keeps the largest value, and when it returns the object holds the
    smallest value of the type. *)
Theorem pre_increment_at_type_max Stored E binary :
  0 < bits Stored ->
  binary plus (type_max Stored) 1 = ([], Some (type_max Stored + 1)) ->
  operator_pre_increment Stored (in_range Stored) E binary
      (SafeBase (type_max Stored)) =
    ([range_error "Invalid value passed on assignment"],
     (if range_error_returns E then SafeBase (type_min Stored)
      else SafeBase (type_max Stored)),
     (if range_error_returns E then Some (by_value (SafeBase (type_min Stored)))
      else None)).
Proof.
  intros Hb Hplus. rewrite operator_pre_increment_run. cbn [m_t].
  rewrite Hplus. cbv zeta.
  rewrite operator_assign_invalid by apply in_range_above_max.
  rewrite convert_above_max by exact Hb.
  destruct (range_error_returns E); reflexivity.
Qed.

Lemma pre_increment_at_type_max_witness :
  operator_pre_increment uint8_t (in_range uint8_t) returning
      (promoted_int returning) (SafeBase 255) =
    ([range_error "Invalid value passed on assignment"],
     SafeBase 0, Some (by_value (SafeBase 0))).
Proof.
  apply (pre_increment_at_type_max uint8_t returning (promoted_int returning));
    reflexivity.
Defined.

(** X10: likewise prefix decrement of the smallest value calls
    [range_error]; when the handler does not return the object keeps the
    smallest value, and when it returns the object holds the largest
    value of the type. *)
Theorem pre_decrement_at_type_min Stored E binary :
  0 < bits Stored ->
  binary minus (type_min Stored) 1 = ([], Some (type_min Stored - 1)) ->
  operator_pre_decrement Stored (in_range Stored) E binary
      (SafeBase (type_min Stored)) =
    ([range_error "Invalid value passed on assignment"],
     (if range_error_returns E then SafeBase (type_max Stored)
      else SafeBase (type_min Stored)),
     (if range_error_returns E then Some (by_value (SafeBase (type_max Stored)))
      else None)).
Proof.
  intros Hb Hminus. rewrite operator_pre_decrement_run. cbn [m_t].
  rewrite Hminus. cbv zeta.
  rewrite operator_assign_invalid by apply in_range_below_min.
  rewrite convert_below_min by exact Hb.
  destruct (range_error_returns E); reflexivity.
Qed.

Lemma pre_decrement_at_type_min_witness :
  operator_pre_decrement int8_t (in_range int8_t) throwing
      (promoted_int throwing) (SafeBase (-128)) =
    ([range_error "Invalid value passed on assignment"],
     SafeBase (-128), None).
Proof.
  apply (pre_decrement_at_type_min int8_t throwing (promoted_int throwing));
    reflexivity.
Defined.

(** X11: neither postfix operator ever changes the datum, whatever the
    binary operator, the check and the handlers do. *)
Theorem postfix_operators_keep_datum Stored validate E binary this :
  state (operator_post_increment Stored validate E binary this) = this /\
  state (operator_post_decrement Stored validate E binary this) = this.
Proof.
  split.
  - rewrite operator_post_increment_run.
    destruct (binary plus (m_t this) 1) as [l [r |]]; [ | reflexivity ].
    destruct (validate r); reflexivity.
  - rewrite operator_post_decrement_run.
    destruct (binary minus (m_t this) 1) as [l [r |]]; [ | reflexivity ].
    destruct (validate r); reflexivity.
Qed.

(** ** Unary operators *)

(** X12: bitwise complement, where it exists, never changes the datum,
    and what it hands back when it returns is a copy of its operand, not
    of the complement. *)
Theorem complement_returns_operand Stored validate E :
  match operator_complement Stored validate E with
  | well_formed body =>
      is_signed Stored = true /\
      forall this : safe_base,
        state (body this) = this /\
        (result (body this) = None \/
         result (body this) = Some (by_value this))
  | ill_formed _ => is_signed Stored = false
  end.
Proof.
  unfold operator_complement, static_assert.
  destruct (is_signed Stored); [ | reflexivity ].
  split; [ reflexivity | ]. intros this. rewrite complement_body_run.
  destruct (validate (Z.lnot (m_t this))); [ split; [ | right ]; reflexivity | ].
  destruct (overflow_error_returns E);
    (split; [ reflexivity | ]); [ right | left ]; reflexivity.
Qed.

(** X13: for a signed stored type and a variant whose domain is the whole
    type, bitwise complement of an object holding a value of the type
    calls no handler. *)
Theorem complement_full_range_silent Stored E this :
  is_signed Stored = true ->
  in_range Stored (m_t this) = true ->
  match operator_complement Stored (in_range Stored) E with
  | well_formed body => body this = ([], this, Some (by_value this))
  | ill_formed _ => False
  end.
Proof.
  intros Hs Hthis. unfold operator_complement, static_assert. rewrite Hs.
  rewrite complement_body_run.
  rewrite in_range_lnot by assumption. reflexivity.
Qed.

Lemma complement_full_range_silent_witness :
  match operator_complement int8_t (in_range int8_t) throwing with
  | well_formed body =>
      body (SafeBase (-128)) =
        ([], SafeBase (-128), Some (by_value (SafeBase (-128))))
  | ill_formed _ => False
  end.
Proof.
  apply (complement_full_range_silent int8_t throwing (SafeBase (-128)));
    reflexivity.
Defined.

(** X15: a result of the binary operator that the variant rejects is
    reported by the compound assignments written [*this = *this OP rhs]
    as [range_error], with the message of [operator=], after whatever the
    binary operator itself reported; the object is unchanged when the
    handler does not return and holds the converted result when it does. *)
Theorem compound_assignment_reports_range_error
    Stored validate E binary op rhs this l r :
  binary op (m_t this) rhs = (l, Some r) ->
  validate r = false ->
  assign_this_op Stored validate E binary op rhs this =
    (l ++ [range_error "Invalid value passed on assignment"],
     (if range_error_returns E then SafeBase (convert Stored r) else this),
     (if range_error_returns E then Some by_reference else None)).
Proof.
  intros Hop Hr. rewrite assign_this_op_run, Hop. cbv zeta.
  rewrite operator_assign_invalid by exact Hr. reflexivity.
Qed.

Lemma compound_assignment_reports_range_error_witness :
  assign_this_op uint8_t (interval 0 100) throwing (promoted_int throwing)
      times 3 (SafeBase 50) =
    ([range_error "Invalid value passed on assignment"], SafeBase 50, None).
Proof.
  apply (compound_assignment_reports_range_error uint8_t (interval 0 100)
           throwing (promoted_int throwing) times 3 (SafeBase 50) [] 150);
    reflexivity.
Defined.

(** ** Relational operators *)

(** X16: where exactly one of the three comparison functions holds of the
    datum and the right-hand operand, [<=] holds exactly when [<] or [==]
    does, and [>=] exactly when [>] or [==] does. *)
Theorem le_ge_by_cases Stored
    (less_than greater_than equal : integer -> integer -> bool)
    (this : safe_base) (rhs : integer) :
  let lt := less_than (stored_value Stored this) rhs in
  let gt := greater_than (stored_value Stored this) rhs in
  let eq := equal (stored_value Stored this) rhs in
  (lt = true /\ gt = false /\ eq = false) \/
  (lt = false /\ gt = true /\ eq = false) \/
  (lt = false /\ gt = false /\ eq = true) ->
  (operator_le Stored greater_than this rhs = true <->
     operator_lt Stored less_than this rhs = true \/
     operator_eq Stored equal this rhs = true) /\
  (operator_ge Stored less_than this rhs = true <->
     operator_gt Stored greater_than this rhs = true \/
     operator_eq Stored equal this rhs = true).
Proof.
  cbv zeta.
  unfold operator_le, operator_lt, operator_eq, operator_ge, operator_gt.
  intros [(Hlt & Hgt & Heq) | [(Hlt & Hgt & Heq) | (Hlt & Hgt & Heq)]];
    rewrite Hlt, Hgt, Heq; simpl; split; split;
    solve [ auto | intros [H | H]; discriminate H | discriminate ].
Qed.

Lemma le_ge_by_cases_witness :
  let this := SafeBase (-1) in
  let rhs := Integer uint32_t 4294967295 in
  (operator_le int32_t safe_compare.greater_than this rhs = true <->
     operator_lt int32_t safe_compare.less_than this rhs = true \/
     operator_eq int32_t safe_compare.equal this rhs = true) /\
  (operator_ge int32_t safe_compare.less_than this rhs = true <->
     operator_gt int32_t safe_compare.greater_than this rhs = true \/
     operator_eq int32_t safe_compare.equal this rhs = true).
Proof.
  apply (le_ge_by_cases int32_t safe_compare.less_than
           safe_compare.greater_than safe_compare.equal
           (SafeBase (-1)) (Integer uint32_t 4294967295)).
  left. repeat split.
Defined.
